(** * wtf.replay.graphics.Visualizer

    A shallow embedding of [src/wtf/replay/graphics/visualizer.js]: the
    abstract Visualizer class of the tracing framework's graphics replay.
    The class keeps a per-instance table from event names to mutators
    (pairs of optional [pre]/[post] handlers), seeded from a process-wide
    default table, and dispatches the handlers around replayed events.

    JavaScript objects live in an explicit store, so that the aliasing
    between the default table, the per-instance tables and the instances
    is visible; methods are computations over that store which may throw
    and which record the calls they make to functions supplied from
    outside the class. *)

From stdpp Require Import base strings gmap list.

(** ** Values *)

(** References into the store. *)
Definition loc := positive.

(** Handles owned by collaborators of the class; the class only passes
    them on. *)
Definition Playback := string.
Definition WebGLRenderingContext := string.
Definition ArgumentData := string.

(** [wtf.replay.graphics.Visualizer.MutatorHandler] (lines 121-126): a
    function value, identified by its name; its body belongs to whoever
    registered it. *)
Definition MutatorHandler := string.

(** [wtf.replay.graphics.Visualizer.Mutator] (lines 129-133):
    [{pre: (MutatorHandler|undefined), post: (MutatorHandler|undefined)}]. *)
Record Mutator := mkMutator {
  pre : option MutatorHandler;
  post : option MutatorHandler
}.

(** What an element access [table[name]] on a mutator table can evaluate
    to: [undefined] when the name resolves nowhere, the stored value (a
    Mutator by the declared type, [null] or [undefined] when the caller
    ignores it), or a property that every plain object inherits from
    [Object.prototype]. *)
Inductive value :=
| VUndefined
| VNull
| VMutator (m : Mutator)
| VInherited (name : string).

(** ToBoolean on these values: [undefined] and [null] are falsy, every
    object and function is truthy. *)
Definition truthy (v : value) : bool :=
  match v with
  | VUndefined | VNull => false
  | VMutator _ | VInherited _ => true
  end.

(** The property names of [Object.prototype] (ECMAScript 5.1, section
    15.2.4 and annex B). Their values are built-in functions, and for
    [__proto__] the prototype object itself; none of them is enumerable. *)
Definition Object_prototype : list string :=
  [ "constructor"; "toString"; "toLocaleString"; "valueOf";
    "hasOwnProperty"; "isPrototypeOf"; "propertyIsEnumerable";
    "__proto__"; "__defineGetter__"; "__defineSetter__";
    "__lookupGetter__"; "__lookupSetter__" ].

(** [o[name]] on a plain object [o] with own properties [o]: the own
    property if there is one, otherwise the property inherited from
    [Object.prototype], otherwise [undefined]. *)
Definition get (o : gmap string value) (name : string) : value :=
  match o !! name with
  | Some v => v
  | None =>
      if bool_decide (name ∈ Object_prototype) then VInherited name
      else VUndefined
  end.

(** [v.pre] and [v.post]. The built-ins inherited from [Object.prototype]
    have no such properties. *)
Definition get_pre (v : value) : option MutatorHandler :=
  match v with
  | VMutator m => pre m
  | _ => None
  end.

Definition get_post (v : value) : option MutatorHandler :=
  match v with
  | VMutator m => post m
  | _ => None
  end.

(** ** The store *)

(** The fields the constructor assigns (lines 30-49), with their declared
    types. *)
Record Visualizer := mkVisualizer {
  playback : Playback;
  active : bool;
  mutators : loc
}.

(** Plain objects used as string-keyed tables, and Visualizer instances. *)
Record store := mkStore {
  objects : gmap loc (gmap string value);
  instances : gmap loc Visualizer
}.

(** [wtf.replay.graphics.Visualizer.MUTATORS_] (line 141) names one object
    for the whole process. *)
Definition MUTATORS_ : loc := 1%positive.

(** The store once the file has been loaded: line 141 binds [MUTATORS_] to
    [{}], and nothing has been constructed. *)
Definition loaded : store :=
  {| objects := {[ MUTATORS_ := ∅ ]}; instances := ∅ |}.

(** ** Computations *)

Inductive exn :=
| AssertionError (message : string)
| TypeError
| Exception (thrown : string).

Inductive completion (A : Type) :=
| Normal (a : A)
| Throw (e : exn).
Arguments Normal {A} a.
Arguments Throw {A} e.

(** Calls that leave the class: the overridable hook and the registered
    handlers. [CallHandler f v gl args] stands for
    [f.call(null, v, gl, args)]. *)
Inductive call :=
| CallSetupMutators (this : loc)
| CallHandler (f : MutatorHandler) (visualizer : loc)
    (gl : option WebGLRenderingContext) (args : ArgumentData).

(** A run yields a completion, the store it leaves and the calls it made,
    in order. *)
Record run (A : Type) := mkRun {
  result : completion A;
  final : store;
  calls : list call
}.
Arguments mkRun {A} result final calls.
Arguments result {A} r.
Arguments final {A} r.
Arguments calls {A} r.

Definition M (A : Type) : Type := store → run A.

#[global] Instance M_ret : MRet M := λ A a st, mkRun (Normal a) st [].

#[global] Instance M_bind : MBind M := λ A B f m st,
  let r := m st in
  match result r with
  | Normal a =>
      let r' := f a (final r) in
      mkRun (result r') (final r') (calls r ++ calls r')
  | Throw e => mkRun (Throw e) (final r) (calls r)
  end.

Definition throw {A} (e : exn) : M A := λ st, mkRun (Throw e) st [].

(** Reading through a reference. JavaScript has no reference that
    denotes nothing; the store type allows one, and reading through it is
    an error of the model, reported as [TypeError]. The statements below
    are about instances and tables that are in the store; where one holds
    for every store it does not say how such a read completes. *)
Definition read_instance (this : loc) : M Visualizer := λ st,
  match instances st !! this with
  | Some v => mkRun (Normal v) st []
  | None => mkRun (Throw TypeError) st []
  end.

Definition read_object (l : loc) : M (gmap string value) := λ st,
  match objects st !! l with
  | Some o => mkRun (Normal o) st []
  | None => mkRun (Throw TypeError) st []
  end.

(** [table[name]] *)
Definition get_elem (table : loc) (name : string) : M value :=
  o ← read_object table; mret (get o name).

(** Writing an object back into the store. *)
Definition write_object (l : loc) (o : gmap string value) : M unit := λ st,
  mkRun (Normal ())
    {| objects := <[l := o]> (objects st); instances := instances st |} [].

(** [table[name] = v]: creates or overwrites the own property. *)
Definition set_elem (table : loc) (name : string) (v : value) : M unit :=
  o ← read_object table; write_object table (<[name := v]> o).

(** Allocation of a fresh plain object and of a fresh instance. *)
Definition new_object (o : gmap string value) : M loc := λ st,
  let l := fresh (dom (objects st)) in
  mkRun (Normal l)
    {| objects := <[l := o]> (objects st); instances := instances st |} [].

Definition new_instance (v : Visualizer) : M loc := λ st,
  let l := fresh (dom (instances st)) in
  mkRun (Normal l)
    {| objects := objects st; instances := <[l := v]> (instances st) |} [].

(** ** Closure Library *)

(** Modelled from the spec: [goog.asserts.assert] belongs to the Closure
    Library and is not under src/. The registration contract "fails fast
    (assertion violation, fatal to the calling code path)": a falsy
    condition throws an assertion error carrying the message, a truthy one
    lets the caller go on. *)
Definition goog_asserts_assert (condition : bool) (message : string)
  : M unit :=
  if condition then mret () else throw (AssertionError message).

(** Modelled from the spec: [goog.object.clone] belongs to the Closure
    Library and is not under src/. It is the shallow clone of the data
    model: a new object that holds, as own properties, the enumerable
    properties of its argument; the properties of [Object.prototype] are
    not enumerable and are not copied. *)
Definition goog_object_clone (obj : loc) : M loc :=
  o ← read_object obj; new_object o.

(** Modelled from the spec: [goog.nullFunction] belongs to the Closure
    Library and is not under src/; "no-op by default". *)
Definition goog_nullFunction : M unit := mret ().

(** ** The class *)

(** The methods a subclass may override (lines 60 and 84). *)
Class VisualizerClass := {
  applyToSubStep : loc → option nat → M unit;
  setupMutators : loc → M unit
}.

(** [wtf.replay.graphics.Visualizer.prototype]: both are
    [goog.nullFunction]. *)
#[global] Instance Visualizer_prototype : VisualizerClass := {|
  applyToSubStep _ _ := goog_nullFunction;
  setupMutators _ := goog_nullFunction
|}.

(** [this.setupMutators()] (line 51): a call through the class. *)
Definition call_setupMutators `{VisualizerClass} (this : loc) : M unit :=
  λ st,
    let r := setupMutators this st in
    mkRun (result r) (final r) (CallSetupMutators this :: calls r).

(** The constructor (lines 27-52). [goog.base(this)] runs the constructor
    of [wtf.events.EventEmitter], whose listener state is no field of this
    class and is left out. The instance enters the store with its three
    fields assigned, then the hook runs. *)
Definition Visualizer_constructor `{VisualizerClass} (playback : Playback)
  : M loc :=
  table ← goog_object_clone MUTATORS_;
  this ← new_instance
           {| playback := playback; active := false; mutators := table |};
  call_setupMutators this;;
  mret this.

(** [registerMutator] (lines 69-77). *)
Definition registerMutator (this : loc) (name : string) (mutator : value)
  : M unit :=
  self ← read_instance this;
  existing ← get_elem (mutators self) name;
  goog_asserts_assert (negb (truthy existing))
    ("A mutator named '" +:+ name +:+ "' already exists.");;
  set_elem (mutators self) name mutator.

(** What the class uses of [wtf.db.EventIterator]. *)
Record EventIterator := mkEventIterator {
  getName : string;
  getArguments : ArgumentData
}.

Section Dispatch.

(** The bodies of the registered handlers: what [f.call(null, v, gl,
    args)] does to the store, and how it completes. *)
Variable invoke :
  MutatorHandler → loc → option WebGLRenderingContext → ArgumentData →
  store → completion unit * store.

Definition call_handler (f : MutatorHandler) (this : loc)
    (gl : option WebGLRenderingContext) (args : ArgumentData) : M unit :=
  λ st,
    let '(r, st') := invoke f this gl args st in
    mkRun r st' [CallHandler f this gl args].

(** [handlePreEvent] (lines 92-101). *)
Definition handlePreEvent (this : loc) (it : EventIterator)
    (gl : option WebGLRenderingContext) : M unit :=
  self ← read_instance this;
  if negb (active self) then mret ()
  else
    associatedFunction ← get_elem (mutators self) (getName it);
    if truthy associatedFunction then
      match get_pre associatedFunction with
      | Some f => call_handler f this gl (getArguments it)
      | None => mret ()
      end
    else mret ().

(** [handlePostEvent] (lines 109-118). *)
Definition handlePostEvent (this : loc) (it : EventIterator)
    (gl : option WebGLRenderingContext) : M unit :=
  self ← read_instance this;
  if negb (active self) then mret ()
  else
    associatedFunction ← get_elem (mutators self) (getName it);
    if truthy associatedFunction then
      match get_post associatedFunction with
      | Some f => call_handler f this gl (getArguments it)
      | None => mret ()
      end
    else mret ().

(** The playback driver's calls into an instance, and a sequence of
    them. *)
Inductive dispatch :=
| PreEvent (it : EventIterator) (gl : option WebGLRenderingContext)
| PostEvent (it : EventIterator) (gl : option WebGLRenderingContext).

Definition handle (this : loc) (d : dispatch) : M unit :=
  match d with
  | PreEvent it gl => handlePreEvent this it gl
  | PostEvent it gl => handlePostEvent this it gl
  end.

Fixpoint handle_all (this : loc) (ds : list dispatch) : M unit :=
  match ds with
  | [] => mret ()
  | d :: ds' => handle this d;; handle_all this ds'
  end.

End Dispatch.

(** [this.mutators[name]], as the dispatch methods and the duplicate check
    read it. *)
Definition lookup (this : loc) (name : string) : M value :=
  self ← read_instance this; get_elem (mutators self) name.

(** The error of line 73. *)
Definition already_exists (name : string) : exn :=
  AssertionError ("A mutator named '" +:+ name +:+ "' already exists.").

(** The state of an instance: its fields, and the contents of the table
    its [mutators] field refers to. *)
Definition visualizer_state (this : loc) (st : store)
  : option (Visualizer * option (gmap string value)) :=
  self ← instances st !! this; Some (self, objects st !! mutators self).

(** What an override of [setupMutators] does (lines 80-84, "Adds mutators
    using registerMutator"): one [registerMutator] call after the other. *)
Fixpoint registerMutators (this : loc) (regs : list (string * value))
  : M unit :=
  match regs with
  | [] => mret ()
  | (name, mutator) :: rest =>
      registerMutator this name mutator;; registerMutators this rest
  end.

(** A subclass whose hook registers a given list of mutators. *)
Definition registering_subclass (regs : list (string * value))
  : VisualizerClass := {|
  applyToSubStep _ _ := goog_nullFunction;
  setupMutators this := registerMutators this regs
|}.

(** The stores a process can be in, as far as this class decides it:
    before any instance exists the default table is in place (line 141);
    from then on instances of the base class and of registering
    subclasses are constructed, mutators are registered on any of them,
    and the owner of an instance assigns its [active] field. *)
Inductive reachable (defaults : gmap string value) : store → Prop :=
| reachable_start st :
    objects st !! MUTATORS_ = Some defaults →
    instances st = ∅ →
    reachable defaults st
| reachable_new st pb :
    reachable defaults st →
    reachable defaults
      (final (Visualizer_constructor (H := Visualizer_prototype) pb st))
| reachable_new_subclass st regs pb :
    reachable defaults st →
    reachable defaults
      (final (Visualizer_constructor (H := registering_subclass regs) pb st))
| reachable_register st this name mutator :
    reachable defaults st →
    reachable defaults (final (registerMutator this name mutator st))
| reachable_active st this self b :
    reachable defaults st →
    instances st !! this = Some self →
    reachable defaults
      {| objects := objects st;
         instances :=
           <[this := {| playback := playback self; active := b;
                        mutators := mutators self |}]> (instances st) |}.

(** What construction establishes and registration keeps: the default
    table is in place, every instance has a table of its own, and that
    table is neither the default table nor the table of another
    instance. *)
Definition separated (defaults : gmap string value) (st : store) : Prop :=
  objects st !! MUTATORS_ = Some defaults ∧
  (∀ a va, instances st !! a = Some va →
     mutators va ≠ MUTATORS_ ∧ is_Some (objects st !! mutators va)) ∧
  (∀ a b va vb,
     instances st !! a = Some va → instances st !! b = Some vb →
     a ≠ b → mutators va ≠ mutators vb).

(** ** Sample inputs *)

Definition example_mutator : Mutator := mkMutator (Some "f") (Some "g").

(** A subclass whose hook registers one mutator. *)
Definition example_subclass : VisualizerClass := {|
  applyToSubStep _ _ := goog_nullFunction;
  setupMutators this := registerMutator this "draw" (VMutator example_mutator)
|}.

(** A store with one instance, at reference 1, whose table is at
    reference 2. *)
Definition example_instance (a : bool) : Visualizer :=
  mkVisualizer "playback" a 2%positive.

Definition example_store (a : bool) (table : gmap string value) : store :=
  {| objects := {[ MUTATORS_ := ∅; 2%positive := table ]};
     instances := {[ 1%positive := example_instance a ]} |}.

(** Handler bodies: ["f"] throws, every other handler returns; neither
    touches the store. *)
Definition example_invoke :
  MutatorHandler → loc → option WebGLRenderingContext → ArgumentData →
  store → completion unit * store :=
  λ f _ _ _ st,
    if bool_decide (f = "f") then (Throw (Exception "lost context"), st)
    else (Normal (), st).

(** The store of a process whose default table holds the given entries
    when the first instance is constructed. *)
Definition store_with_defaults (defaults : gmap string value) : store :=
  {| objects := {[ MUTATORS_ := defaults ]}; instances := ∅ |}.

Definition example_regs : list (string * value) :=
  [ ("draw", VMutator example_mutator);
    ("clear", VMutator (mkMutator None (Some "g"))) ].

Definition draw : EventIterator := mkEventIterator "draw" "argsX".
Definition unknown : EventIterator := mkEventIterator "unknown" "argsY".

(** * Properties *)

(** ** Runs of the primitive steps *)

Lemma bind_Normal {A B} (m : M A) (f : A → M B) st a st' cs :
  m st = mkRun (Normal a) st' cs →
  (m ≫= f) st =
    mkRun (result (f a st')) (final (f a st')) (cs ++ calls (f a st')).
Proof. intros E. unfold mbind, M_bind. by rewrite E. Qed.

Lemma bind_Throw {A B} (m : M A) (f : A → M B) st e st' cs :
  m st = mkRun (Throw e) st' cs →
  (m ≫= f) st = mkRun (Throw e) st' cs.
Proof. intros E. unfold mbind, M_bind. by rewrite E. Qed.

Lemma run_eta {A} (r : run A) : mkRun (result r) (final r) (calls r) = r.
Proof. by destruct r. Qed.

Lemma bind_silent {A B} (m : M A) (f : A → M B) st a st' :
  m st = mkRun (Normal a) st' [] → (m ≫= f) st = f a st'.
Proof. intros E. rewrite (bind_Normal _ _ _ _ _ _ E). apply run_eta. Qed.

Lemma read_instance_Some st this self :
  instances st !! this = Some self →
  read_instance this st = mkRun (Normal self) st [].
Proof. intros E. unfold read_instance. by rewrite E. Qed.

Lemma read_object_Some st l o :
  objects st !! l = Some o → read_object l st = mkRun (Normal o) st [].
Proof. intros E. unfold read_object. by rewrite E. Qed.

Lemma get_elem_Some st l o name :
  objects st !! l = Some o →
  get_elem l name st = mkRun (Normal (get o name)) st [].
Proof.
  intros E. unfold get_elem.
  by rewrite (bind_silent _ _ _ _ _ (read_object_Some _ _ _ E)).
Qed.

Lemma set_elem_Some st l o name v :
  objects st !! l = Some o →
  set_elem l name v st =
    mkRun (Normal ())
      {| objects := <[l := <[name := v]> o]> (objects st);
         instances := instances st |} [].
Proof.
  intros E. unfold set_elem.
  by rewrite (bind_silent _ _ _ _ _ (read_object_Some _ _ _ E)).
Qed.

Lemma lookup_Some st this self table name :
  instances st !! this = Some self →
  objects st !! mutators self = Some table →
  lookup this name st = mkRun (Normal (get table name)) st [].
Proof.
  intros Hi Ho. unfold lookup.
  rewrite (bind_silent _ _ _ _ _ (read_instance_Some _ _ _ Hi)).
  by apply get_elem_Some.
Qed.

(** ** [get] *)

Lemma get_own o name v : o !! name = Some v → get o name = v.
Proof. intros E. unfold get. by rewrite E. Qed.

Lemma get_inherited o name :
  o !! name = None → name ∈ Object_prototype → get o name = VInherited name.
Proof.
  intros E Hin. unfold get. rewrite E. by rewrite bool_decide_eq_true_2.
Qed.

Lemma get_absent o name :
  o !! name = None → name ∉ Object_prototype → get o name = VUndefined.
Proof.
  intros E Hin. unfold get. rewrite E. by rewrite bool_decide_eq_false_2.
Qed.

Lemma get_insert o name v : get (<[name := v]> o) name = v.
Proof. apply get_own, lookup_insert_eq. Qed.

(** ** [registerMutator] *)

(** The two ways [registerMutator] runs on an instance that is in the
    store: the assertion, or the write into the instance's own table. *)
Lemma registerMutator_run st this self table name mutator :
  instances st !! this = Some self →
  objects st !! mutators self = Some table →
  registerMutator this name mutator st =
    if truthy (get table name)
    then mkRun (Throw (already_exists name)) st []
    else mkRun (Normal ())
           {| objects :=
                <[mutators self := <[name := mutator]> table]> (objects st);
              instances := instances st |} [].
Proof.
  intros Hi Ho. unfold registerMutator.
  rewrite (bind_silent _ _ _ _ _ (read_instance_Some _ _ _ Hi)).
  rewrite (bind_silent _ _ _ _ _ (get_elem_Some _ _ _ name Ho)).
  destruct (truthy (get table name)); cbn.
  - reflexivity.
  - unfold mbind, M_bind; cbn. by rewrite (set_elem_Some _ _ _ _ _ Ho).
Qed.

(** The write of line 76 never meets the accessor [__proto__]: every name
    of [Object.prototype] is stopped by the assertion unless an own
    property shadows it. *)
Lemma registerMutator_inherited st this self table name mutator :
  instances st !! this = Some self →
  objects st !! mutators self = Some table →
  table !! name = None →
  name ∈ Object_prototype →
  registerMutator this name mutator st =
    mkRun (Throw (already_exists name)) st [].
Proof.
  intros Hi Ho Hn Hin. rewrite (registerMutator_run _ _ _ _ _ _ Hi Ho).
  by rewrite (get_inherited _ _ Hn Hin).
Qed.

(** ** The constructor *)

(** The store at line 51, when the hook is called: the instance and its
    table have been allocated and the table holds the defaults. *)
Lemma Visualizer_constructor_run `{VisualizerClass} st defaults pb :
  objects st !! MUTATORS_ = Some defaults →
  let table := fresh (dom (objects st)) in
  let this := fresh (dom (instances st)) in
  let seeded :=
    {| objects := <[table := defaults]> (objects st);
       instances :=
         <[this := {| playback := pb; active := false; mutators := table |}]>
           (instances st) |} in
  let hook := setupMutators this seeded in
  Visualizer_constructor pb st =
    mkRun (match result hook with
           | Normal _ => Normal this
           | Throw e => Throw e
           end)
          (final hook) (CallSetupMutators this :: calls hook).
Proof.
  intros Hd table this seeded hook. unfold Visualizer_constructor.
  assert (goog_object_clone MUTATORS_ st =
          mkRun (Normal table)
            {| objects := <[table := defaults]> (objects st);
               instances := instances st |} []) as Hc.
  { unfold goog_object_clone.
    by rewrite (bind_silent _ _ _ _ _ (read_object_Some _ _ _ Hd)). }
  rewrite (bind_silent _ _ _ _ _ Hc).
  unfold mbind at 1, M_bind at 1. cbn.
  unfold mbind, M_bind, call_setupMutators. cbn.
  fold this. fold seeded. fold hook.
  destruct (result hook); cbn; [by rewrite app_nil_r | done].
Qed.

Lemma Visualizer_constructor_base st defaults pb :
  objects st !! MUTATORS_ = Some defaults →
  let table := fresh (dom (objects st)) in
  let this := fresh (dom (instances st)) in
  Visualizer_constructor (H := Visualizer_prototype) pb st =
    mkRun (Normal this)
      {| objects := <[table := defaults]> (objects st);
         instances :=
           <[this := {| playback := pb; active := false;
                        mutators := table |}]> (instances st) |}
      [CallSetupMutators this].
Proof.
  intros Hd table this.
  by rewrite (Visualizer_constructor_run st defaults pb Hd).
Qed.

Lemma fresh_object_None st : objects st !! fresh (dom (objects st)) = None.
Proof. apply not_elem_of_dom, is_fresh. Qed.

Lemma fresh_instance_None st :
  instances st !! fresh (dom (instances st)) = None.
Proof. apply not_elem_of_dom, is_fresh. Qed.

Lemma fresh_object_ne st l o :
  objects st !! l = Some o → fresh (dom (objects st)) ≠ l.
Proof. intros E <-. by rewrite fresh_object_None in E. Qed.

(** ** Registration *)

(** C1: for every instance and every event name that the instance's
    registry binds to an entry (a mutator, as the declared type of
    [registerMutator]'s parameter has it), calling [registerMutator] again
    with that name throws the assertion error, whether or not the second
    mutator value is the one already stored, and leaves the store as it
    was: the registration is not accepted as an overwrite. *)
Theorem registerMutator_duplicate_fails st this self table name m mutator :
  instances st !! this = Some self →
  objects st !! mutators self = Some table →
  table !! name = Some (VMutator m) →
  registerMutator this name mutator st =
    mkRun (Throw (already_exists name)) st [].
Proof.
  intros Hi Ho Hn. rewrite (registerMutator_run _ _ _ _ _ _ Hi Ho).
  by rewrite (get_own _ _ _ Hn).
Qed.

(** C10: a falsy mutator value is stored like any other, and then does not
    protect its name: the next registration under the same name passes the
    assertion and overwrites the entry. *)
Theorem registerMutator_falsy_overwritten
    st this self table name v mutator :
  instances st !! this = Some self →
  objects st !! mutators self = Some table →
  truthy (get table name) = false →
  truthy v = false →
  let r1 := registerMutator this name v st in
  let r2 := registerMutator this name mutator (final r1) in
  result r1 = Normal () ∧
  objects (final r1) !! mutators self = Some (<[name := v]> table) ∧
  result r2 = Normal () ∧
  objects (final r2) !! mutators self = Some (<[name := mutator]> table).
Proof.
  intros Hi Ho Hfree Hv r1 r2.
  assert (r1 = mkRun (Normal ())
                 {| objects := <[mutators self := <[name := v]> table]>
                                 (objects st);
                    instances := instances st |} []) as E1.
  { unfold r1. rewrite (registerMutator_run _ _ _ _ _ _ Hi Ho).
    by rewrite Hfree. }
  assert (objects (final r1) !! mutators self = Some (<[name := v]> table))
    as Ho1 by (rewrite E1; cbn; apply lookup_insert_eq).
  assert (instances (final r1) !! this = Some self) as Hi1 by by rewrite E1.
  assert (r2 = mkRun (Normal ())
                 {| objects :=
                      <[mutators self := <[name := mutator]> (<[name := v]> table)]>
                        (objects (final r1));
                    instances := instances (final r1) |} []) as E2.
  { unfold r2. rewrite (registerMutator_run _ _ _ _ _ _ Hi1 Ho1).
    by rewrite get_insert, Hv. }
  repeat split; [by rewrite E1 | done | by rewrite E2 |].
  rewrite E2; cbn. rewrite lookup_insert_eq. by rewrite insert_insert_eq.
Qed.

(** C9: on a fresh instance built from an empty default table, every name
    of a property inherited from [Object.prototype] fails the duplicate
    assertion, although the instance's table holds no entry at all. *)
Theorem registerMutator_inherited_name_fails st pb name mutator :
  objects st !! MUTATORS_ = Some ∅ →
  name ∈ Object_prototype →
  let r0 := Visualizer_constructor (H := Visualizer_prototype) pb st in
  ∃ this self,
    result r0 = Normal this ∧
    instances (final r0) !! this = Some self ∧
    objects (final r0) !! mutators self = Some ∅ ∧
    registerMutator this name mutator (final r0) =
      mkRun (Throw (already_exists name)) (final r0) [].
Proof.
  intros Hd Hin r0. unfold r0.
  rewrite (Visualizer_constructor_base _ _ pb Hd). cbn.
  eexists _, _. split; [done |].
  split; [apply lookup_insert_eq |].
  split; [apply lookup_insert_eq |].
  eapply registerMutator_inherited; cbn;
    [apply lookup_insert_eq | apply lookup_insert_eq | done | done].
Qed.

(** C4: the code at the failing input. ["toString"] is not in the (empty)
    default table and no mutator was registered under it, yet
    [registerMutator("toString", m)] on a fresh instance throws "A mutator
    named 'toString' already exists.": line 73 reads the built-in that the
    registry inherits from [Object.prototype]. The lookup afterwards
    yields that built-in, not the mutator. *)
Lemma registerMutator_toString_on_fresh_instance :
  let m := VMutator (mkMutator (Some "f") None) in
  let r0 := Visualizer_constructor (H := Visualizer_prototype)
              "playback" loaded in
  let r1 := registerMutator 1%positive "toString" m (final r0) in
  objects loaded !! MUTATORS_ = Some ∅ ∧
  result r0 = Normal 1%positive ∧
  result r1 = Throw (already_exists "toString") ∧
  result (lookup 1%positive "toString" (final r1)) = Normal (VInherited "toString").
Proof. vm_compute. repeat split; reflexivity. Qed.

(** Where the name is neither present in the default table nor the name
    of a property inherited from [Object.prototype], [registerMutator] on
    a freshly constructed instance succeeds, and the lookup of the name in
    the instance's registry then returns exactly the registered
    mutator. *)
Theorem registerMutator_fresh st defaults pb name mutator :
  objects st !! MUTATORS_ = Some defaults →
  defaults !! name = None →
  name ∉ Object_prototype →
  let r0 := Visualizer_constructor (H := Visualizer_prototype) pb st in
  ∃ this,
    result r0 = Normal this ∧
    let r1 := registerMutator this name mutator (final r0) in
    result r1 = Normal () ∧
    result (lookup this name (final r1)) = Normal mutator.
Proof.
  intros Hd Hn Hin r0. unfold r0.
  rewrite (Visualizer_constructor_base _ _ pb Hd). cbn.
  eexists. split; [done |]. cbn.
  erewrite registerMutator_run;
    [| cbn; apply lookup_insert_eq | cbn; apply lookup_insert_eq].
  rewrite (get_absent _ _ Hn Hin). cbn. split; [done |].
  erewrite lookup_Some;
    [| cbn; apply lookup_insert_eq | cbn; apply lookup_insert_eq].
  cbn. by rewrite get_insert.
Qed.

(** ** Dispatch *)

Section DispatchProperties.

Variable invoke :
  MutatorHandler → loc → option WebGLRenderingContext → ArgumentData →
  store → completion unit * store.

Lemma call_handler_run f this gl args st :
  call_handler invoke f this gl args st =
    mkRun (invoke f this gl args st).1 (invoke f this gl args st).2
      [CallHandler f this gl args].
Proof. unfold call_handler. by destruct (invoke f this gl args st). Qed.

Lemma handlePreEvent_inactive st this self it gl :
  instances st !! this = Some self →
  active self = false →
  handlePreEvent invoke this it gl st = mkRun (Normal ()) st [].
Proof.
  intros Hi Ha. unfold handlePreEvent.
  rewrite (bind_silent _ _ _ _ _ (read_instance_Some _ _ _ Hi)).
  by rewrite Ha.
Qed.

Lemma handlePostEvent_inactive st this self it gl :
  instances st !! this = Some self →
  active self = false →
  handlePostEvent invoke this it gl st = mkRun (Normal ()) st [].
Proof.
  intros Hi Ha. unfold handlePostEvent.
  rewrite (bind_silent _ _ _ _ _ (read_instance_Some _ _ _ Hi)).
  by rewrite Ha.
Qed.

(** On an active instance the dispatch is decided by the [pre] (or
    [post]) slot of what the name resolves to. *)
Lemma handlePreEvent_active st this self table it gl :
  instances st !! this = Some self →
  active self = true →
  objects st !! mutators self = Some table →
  handlePreEvent invoke this it gl st =
    match get_pre (get table (getName it)) with
    | Some f => call_handler invoke f this gl (getArguments it) st
    | None => mkRun (Normal ()) st []
    end.
Proof.
  intros Hi Ha Ho. unfold handlePreEvent.
  rewrite (bind_silent _ _ _ _ _ (read_instance_Some _ _ _ Hi)).
  rewrite Ha. cbn [negb].
  rewrite (bind_silent _ _ _ _ _ (get_elem_Some _ _ _ (getName it) Ho)).
  destruct (get table (getName it)) as [| | [[f |] [g |]] |]; by cbn.
Qed.

Lemma handlePostEvent_active st this self table it gl :
  instances st !! this = Some self →
  active self = true →
  objects st !! mutators self = Some table →
  handlePostEvent invoke this it gl st =
    match get_post (get table (getName it)) with
    | Some f => call_handler invoke f this gl (getArguments it) st
    | None => mkRun (Normal ()) st []
    end.
Proof.
  intros Hi Ha Ho. unfold handlePostEvent.
  rewrite (bind_silent _ _ _ _ _ (read_instance_Some _ _ _ Hi)).
  rewrite Ha. cbn [negb].
  rewrite (bind_silent _ _ _ _ _ (get_elem_Some _ _ _ (getName it) Ho)).
  destruct (get table (getName it)) as [| | [[f |] [g |]] |]; by cbn.
Qed.

(** C2: on an instance whose [active] flag is false, any sequence of
    [handlePreEvent] and [handlePostEvent] calls, for any event
    iterators and contexts, returns normally, makes no call and leaves
    the store as it was. *)
Theorem inactive_never_dispatches st this self ds :
  instances st !! this = Some self →
  active self = false →
  handle_all invoke this ds st = mkRun (Normal ()) st [].
Proof.
  intros Hi Ha. induction ds as [| d ds IH]; [done |].
  cbn [handle_all].
  assert (handle invoke this d st = mkRun (Normal ()) st []) as E.
  { destruct d; cbn [handle];
      [by eapply handlePreEvent_inactive
      | by eapply handlePostEvent_inactive]. }
  by rewrite (bind_silent _ _ _ _ _ E).
Qed.

(** C3: on an active instance whose registry binds the event's name to a
    mutator with a [post] handler and no [pre] handler, [handlePreEvent]
    makes no call, and [handlePostEvent] makes exactly one: the [post]
    handler, applied to the instance, the supplied context and the
    event's arguments; it completes as that handler does. *)
Theorem post_only_mutator_dispatch st this self table it gl m g :
  instances st !! this = Some self →
  active self = true →
  objects st !! mutators self = Some table →
  table !! getName it = Some (VMutator m) →
  pre m = None →
  post m = Some g →
  handlePreEvent invoke this it gl st = mkRun (Normal ()) st [] ∧
  let r := handlePostEvent invoke this it gl st in
  calls r = [CallHandler g this gl (getArguments it)] ∧
  (result r, final r) = invoke g this gl (getArguments it) st.
Proof.
  intros Hi Ha Ho Hn Hpre Hpost. split.
  - rewrite (handlePreEvent_active _ _ _ _ _ _ Hi Ha Ho).
    rewrite (get_own _ _ _ Hn). cbn. by rewrite Hpre.
  - cbn zeta. rewrite (handlePostEvent_active _ _ _ _ _ _ Hi Ha Ho).
    rewrite (get_own _ _ _ Hn). cbn [get_post]. rewrite Hpost.
    rewrite call_handler_run. cbn.
    split; [done |]. by destruct (invoke g this gl (getArguments it) st).
Qed.

(** C5: on an active instance whose registry has no entry for the
    event's name, [handlePreEvent] and [handlePostEvent] return
    normally, make no call and leave the store as it was. *)
Theorem unregistered_event_is_noop st this self table it gl :
  instances st !! this = Some self →
  active self = true →
  objects st !! mutators self = Some table →
  table !! getName it = None →
  handlePreEvent invoke this it gl st = mkRun (Normal ()) st [] ∧
  handlePostEvent invoke this it gl st = mkRun (Normal ()) st [].
Proof.
  intros Hi Ha Ho Hn.
  rewrite (handlePreEvent_active _ _ _ _ _ _ Hi Ha Ho).
  rewrite (handlePostEvent_active _ _ _ _ _ _ Hi Ha Ho).
  unfold get. rewrite Hn. by case_bool_decide.
Qed.

(** What a dispatch call does to the store is what the one handler it
    calls does, if it calls one. *)
Lemma handle_final st this d :
  final (handle invoke this d st) = st ∨
  ∃ f gl args, final (handle invoke this d st) = (invoke f this gl args st).2.
Proof.
  destruct (instances st !! this) as [self |] eqn:Hi; cycle 1.
  { left. destruct d; cbn [handle];
      unfold handlePreEvent, handlePostEvent;
      by rewrite (bind_Throw _ _ _ TypeError st []);
        [| unfold read_instance; rewrite Hi]. }
  destruct (active self) eqn:Ha; cycle 1.
  { left. destruct d; cbn [handle];
      [by erewrite handlePreEvent_inactive
      | by erewrite handlePostEvent_inactive]. }
  destruct (objects st !! mutators self) as [table |] eqn:Ho; cycle 1.
  { left. destruct d; cbn [handle];
      unfold handlePreEvent, handlePostEvent;
      rewrite (bind_silent _ _ _ _ _ (read_instance_Some _ _ _ Hi));
      rewrite Ha; cbn [negb];
      by rewrite (bind_Throw _ _ _ TypeError st []);
        [| unfold get_elem;
           rewrite (bind_Throw _ _ _ TypeError st []);
           [| unfold read_object; rewrite Ho]]. }
  destruct d as [it gl | it gl]; cbn [handle].
  - rewrite (handlePreEvent_active _ _ _ _ _ _ Hi Ha Ho).
    destruct (get_pre _) as [f |]; [right | by left].
    rewrite call_handler_run. by eexists _, _, _.
  - rewrite (handlePostEvent_active _ _ _ _ _ _ Hi Ha Ho).
    destruct (get_post _) as [f |]; [right | by left].
    rewrite call_handler_run. by eexists _, _, _.
Qed.

(** C8: if the handlers, called for an instance, leave that instance's
    fields and registry as they find them, then so does any sequence of
    [handlePreEvent] and [handlePostEvent] calls on it: the dispatch
    methods add no change of their own. *)
Theorem dispatch_preserves_visualizer st this ds :
  (∀ f gl args s,
     visualizer_state this (invoke f this gl args s).2 =
     visualizer_state this s) →
  visualizer_state this (final (handle_all invoke this ds st)) =
  visualizer_state this st.
Proof.
  intros Hinv. revert st. induction ds as [| d ds IH]; intros st; [done |].
  cbn [handle_all]. unfold mbind, M_bind.
  assert (visualizer_state this (final (handle invoke this d st)) =
          visualizer_state this st) as Hd.
  { destruct (handle_final st this d) as [-> | (f & gl & args & ->)];
      [done | apply Hinv]. }
  destruct (result (handle invoke this d st)); cbn [final]; [| done].
  by rewrite IH.
Qed.

End DispatchProperties.

(** ** Construction and isolation *)

(** C7: the constructor allocates a fresh instance and a fresh table,
    leaves the instance with [active] false and the table equal to the
    default table, and then calls [setupMutators] on the instance: the
    constructor's own calls are that single call, and the rest of its run
    is the run of the hook from the seeded store. With the hook of the
    base class the constructed store is the seeded one. *)
Theorem Visualizer_constructor_establishes `{VisualizerClass}
    st defaults pb :
  objects st !! MUTATORS_ = Some defaults →
  ∃ this table,
    instances st !! this = None ∧
    objects st !! table = None ∧
    let seeded :=
      {| objects := <[table := defaults]> (objects st);
         instances :=
           <[this := {| playback := pb; active := false;
                        mutators := table |}]> (instances st) |} in
    let hook := setupMutators this seeded in
    visualizer_state this seeded =
      Some ({| playback := pb; active := false; mutators := table |},
            Some defaults) ∧
    objects seeded !! MUTATORS_ = Some defaults ∧
    Visualizer_constructor pb st =
      mkRun (match result hook with
             | Normal _ => Normal this
             | Throw e => Throw e
             end)
            (final hook) (CallSetupMutators this :: calls hook) ∧
    Visualizer_constructor (H := Visualizer_prototype) pb st =
      mkRun (Normal this) seeded [CallSetupMutators this].
Proof.
  intros Hd.
  exists (fresh (dom (instances st))), (fresh (dom (objects st))).
  split; [apply fresh_instance_None |].
  split; [apply fresh_object_None |].
  cbn zeta. split; [| split; [| split]].
  - unfold visualizer_state. cbn. rewrite lookup_insert_eq. cbn.
    by rewrite lookup_insert_eq.
  - cbn. rewrite lookup_insert_ne; [done |]. by eapply fresh_object_ne.
  - by apply Visualizer_constructor_run.
  - by apply Visualizer_constructor_base.
Qed.

(** [registerMutator] writes to the table of its own instance only. *)
Lemma registerMutator_frame st this self name mutator :
  instances st !! this = Some self →
  instances (final (registerMutator this name mutator st)) = instances st ∧
  ∀ l, l ≠ mutators self →
       objects (final (registerMutator this name mutator st)) !! l =
       objects st !! l.
Proof.
  intros Hi.
  destruct (objects st !! mutators self) as [table |] eqn:Ho.
  - rewrite (registerMutator_run _ _ _ _ _ _ Hi Ho).
    destruct (truthy (get table name)); cbn; [done |].
    split; [done |]. intros l Hl. by rewrite lookup_insert_ne.
  - unfold registerMutator.
    rewrite (bind_silent _ _ _ _ _ (read_instance_Some _ _ _ Hi)).
    rewrite (bind_Throw _ _ _ TypeError st []); [done |].
    unfold get_elem. rewrite (bind_Throw _ _ _ TypeError st []); [done |].
    unfold read_object. by rewrite Ho.
Qed.

(** ** The theorems at concrete inputs *)

Lemma registerMutator_duplicate_fails_witness :
  registerMutator 1%positive "draw" (VMutator example_mutator)
    (example_store false {[ "draw" := VMutator example_mutator ]}) =
  mkRun (Throw (already_exists "draw"))
    (example_store false {[ "draw" := VMutator example_mutator ]}) [].
Proof.
  apply (registerMutator_duplicate_fails
           (example_store false {[ "draw" := VMutator example_mutator ]})
           1%positive (example_instance false)
           {[ "draw" := VMutator example_mutator ]} "draw"
           example_mutator (VMutator example_mutator));
    reflexivity.
Defined.

Lemma registerMutator_falsy_overwritten_witness :
  let r1 := registerMutator 1%positive "draw" VNull (example_store false ∅) in
  let r2 :=
    registerMutator 1%positive "draw" (VMutator example_mutator) (final r1) in
  result r1 = Normal () ∧
  objects (final r1) !! 2%positive = Some (<["draw" := VNull]> ∅) ∧
  result r2 = Normal () ∧
  objects (final r2) !! 2%positive =
    Some (<["draw" := VMutator example_mutator]> ∅).
Proof.
  apply (registerMutator_falsy_overwritten (example_store false ∅)
           1%positive (example_instance false) ∅ "draw" VNull
           (VMutator example_mutator));
    reflexivity.
Defined.

Lemma registerMutator_inherited_name_fails_witness :
  let r0 := Visualizer_constructor (H := Visualizer_prototype)
              "playback" loaded in
  ∃ this self,
    result r0 = Normal this ∧
    instances (final r0) !! this = Some self ∧
    objects (final r0) !! mutators self = Some ∅ ∧
    registerMutator this "constructor" (VMutator example_mutator)
      (final r0) =
      mkRun (Throw (already_exists "constructor")) (final r0) [].
Proof.
  apply (registerMutator_inherited_name_fails loaded "playback"
           "constructor" (VMutator example_mutator)).
  - reflexivity.
  - apply (bool_decide_unpack _). exact I.
Defined.

Lemma registerMutator_fresh_witness :
  let r0 := Visualizer_constructor (H := Visualizer_prototype)
              "playback" loaded in
  ∃ this,
    result r0 = Normal this ∧
    let r1 :=
      registerMutator this "draw" (VMutator example_mutator) (final r0) in
    result r1 = Normal () ∧
    result (lookup this "draw" (final r1)) =
      Normal (VMutator example_mutator).
Proof.
  apply (registerMutator_fresh loaded ∅ "playback" "draw"
           (VMutator example_mutator)).
  - reflexivity.
  - reflexivity.
  - apply (bool_decide_unpack _). exact I.
Defined.

Lemma inactive_never_dispatches_witness :
  handle_all example_invoke 1%positive
    [PreEvent draw (Some "ctx"); PostEvent draw (Some "ctx");
     PreEvent unknown None]
    (example_store false {[ "draw" := VMutator example_mutator ]}) =
  mkRun (Normal ())
    (example_store false {[ "draw" := VMutator example_mutator ]}) [].
Proof.
  apply (inactive_never_dispatches example_invoke _ 1%positive
           (example_instance false)); reflexivity.
Defined.

Lemma post_only_mutator_dispatch_witness :
  let st := example_store true
              {[ "draw" := VMutator (mkMutator None (Some "g")) ]} in
  handlePreEvent example_invoke 1%positive draw (Some "ctx") st =
    mkRun (Normal ()) st [] ∧
  let r := handlePostEvent example_invoke 1%positive draw (Some "ctx") st in
  calls r = [CallHandler "g" 1%positive (Some "ctx") "argsX"] ∧
  (result r, final r) =
    example_invoke "g" 1%positive (Some "ctx") "argsX" st.
Proof.
  apply (post_only_mutator_dispatch example_invoke
           (example_store true
              {[ "draw" := VMutator (mkMutator None (Some "g")) ]})
           1%positive (example_instance true)
           {[ "draw" := VMutator (mkMutator None (Some "g")) ]}
           draw (Some "ctx") (mkMutator None (Some "g")) "g");
    reflexivity.
Defined.

Lemma unregistered_event_is_noop_witness :
  let st := example_store true {[ "draw" := VMutator example_mutator ]} in
  handlePreEvent example_invoke 1%positive unknown (Some "ctx") st =
    mkRun (Normal ()) st [] ∧
  handlePostEvent example_invoke 1%positive unknown (Some "ctx") st =
    mkRun (Normal ()) st [].
Proof.
  apply (unregistered_event_is_noop example_invoke
           (example_store true {[ "draw" := VMutator example_mutator ]})
           1%positive (example_instance true)
           {[ "draw" := VMutator example_mutator ]} unknown (Some "ctx"));
    reflexivity.
Defined.

Lemma dispatch_preserves_visualizer_witness :
  let st := example_store true {[ "draw" := VMutator example_mutator ]} in
  visualizer_state 1%positive
    (final (handle_all example_invoke 1%positive
              [PostEvent draw (Some "ctx"); PreEvent draw (Some "ctx");
               PostEvent draw None] st)) =
  visualizer_state 1%positive st.
Proof.
  apply (dispatch_preserves_visualizer example_invoke
           (example_store true {[ "draw" := VMutator example_mutator ]})
           1%positive).
  intros f gl args s. unfold example_invoke.
  destruct (bool_decide (f = "f")); reflexivity.
Defined.

Lemma Visualizer_constructor_establishes_witness :
  ∃ this table,
    instances loaded !! this = None ∧
    objects loaded !! table = None ∧
    let seeded :=
      {| objects := <[table := ∅]> (objects loaded);
         instances :=
           <[this := {| playback := "playback"; active := false;
                        mutators := table |}]> (instances loaded) |} in
    let hook := setupMutators (VisualizerClass := example_subclass)
                  this seeded in
    visualizer_state this seeded =
      Some ({| playback := "playback"; active := false;
               mutators := table |}, Some ∅) ∧
    objects seeded !! MUTATORS_ = Some ∅ ∧
    Visualizer_constructor (H := example_subclass) "playback" loaded =
      mkRun (match result hook with
             | Normal _ => Normal this
             | Throw e => Throw e
             end)
            (final hook) (CallSetupMutators this :: calls hook) ∧
    Visualizer_constructor (H := Visualizer_prototype) "playback" loaded =
      mkRun (Normal this) seeded [CallSetupMutators this].
Proof.
  apply (Visualizer_constructor_establishes (H := example_subclass)
           loaded ∅ "playback").
  reflexivity.
Defined.

(** * Further properties of the class *)

Lemma get_insert_ne o name name' v :
  name ≠ name' → get (<[name := v]> o) name' = get o name'.
Proof. intros Hne. unfold get. by rewrite lookup_insert_ne. Qed.

Lemma registerMutator_no_instance st this name mutator :
  instances st !! this = None →
  registerMutator this name mutator st = mkRun (Throw TypeError) st [].
Proof.
  intros Hi. unfold registerMutator.
  rewrite (bind_Throw _ _ _ TypeError st []); [done |].
  unfold read_instance. by rewrite Hi.
Qed.

Lemma registerMutator_no_table st this self name mutator :
  instances st !! this = Some self →
  objects st !! mutators self = None →
  registerMutator this name mutator st = mkRun (Throw TypeError) st [].
Proof.
  intros Hi Ho. unfold registerMutator.
  rewrite (bind_silent _ _ _ _ _ (read_instance_Some _ _ _ Hi)).
  rewrite (bind_Throw _ _ _ TypeError st []); [done |].
  unfold get_elem. rewrite (bind_Throw _ _ _ TypeError st []); [done |].
  unfold read_object. by rewrite Ho.
Qed.

(** ** Registration *)

(** A registration that does not succeed changes nothing, and no
    registration calls a handler: the assertion of line 73 comes before
    the only write, line 76. *)
Theorem registerMutator_failure_atomic st this name mutator :
  calls (registerMutator this name mutator st) = [] ∧
  (result (registerMutator this name mutator st) ≠ Normal () →
   final (registerMutator this name mutator st) = st).
Proof.
  destruct (instances st !! this) as [self |] eqn:Hi;
    [| by rewrite (registerMutator_no_instance _ _ _ _ Hi)].
  destruct (objects st !! mutators self) as [table |] eqn:Ho;
    [| by rewrite (registerMutator_no_table _ _ _ _ _ Hi Ho)].
  rewrite (registerMutator_run _ _ _ _ _ _ Hi Ho).
  by destruct (truthy (get table name)).
Qed.

(** Whether it succeeds or not, a registration under one name leaves the
    fields of every instance as they were, and every other name of the
    registry resolves as before. *)
Theorem registerMutator_preserves_others st this self table name mutator :
  instances st !! this = Some self →
  objects st !! mutators self = Some table →
  let r := registerMutator this name mutator st in
  instances (final r) = instances st ∧
  ∀ name', name' ≠ name →
    lookup this name' (final r) =
      mkRun (Normal (get table name')) (final r) [].
Proof.
  intros Hi Ho r. unfold r.
  rewrite (registerMutator_run _ _ _ _ _ _ Hi Ho).
  destruct (truthy (get table name)); cbn [final instances].
  - split; [done |]. intros name' _. by apply (lookup_Some _ _ self).
  - split; [done |]. intros name' Hne.
    erewrite lookup_Some; [| exact Hi | cbn; apply lookup_insert_eq].
    by rewrite get_insert_ne.
Qed.

(** A name that the default table binds to a mutator resolves to that
    mutator on a freshly constructed instance, and cannot be registered
    again there: the clone of line 49 carries the default entries into the
    instance, where the assertion of line 73 protects them. *)
Theorem default_entry_blocks_registration st defaults pb name m mutator :
  objects st !! MUTATORS_ = Some defaults →
  defaults !! name = Some (VMutator m) →
  let r0 := Visualizer_constructor (H := Visualizer_prototype) pb st in
  ∃ this,
    result r0 = Normal this ∧
    lookup this name (final r0) =
      mkRun (Normal (VMutator m)) (final r0) [] ∧
    registerMutator this name mutator (final r0) =
      mkRun (Throw (already_exists name)) (final r0) [].
Proof.
  intros Hd Hn r0. unfold r0.
  rewrite (Visualizer_constructor_base _ _ pb Hd). cbn [result final].
  eexists. split; [done |]. split.
  - erewrite lookup_Some;
      [| cbn; apply lookup_insert_eq | cbn; apply lookup_insert_eq].
    by rewrite (get_own _ _ _ Hn).
  - erewrite registerMutator_run;
      [| cbn; apply lookup_insert_eq | cbn; apply lookup_insert_eq].
    by rewrite (get_own _ _ _ Hn).
Qed.

Lemma registerMutators_run st this self table regs :
  instances st !! this = Some self →
  objects st !! mutators self = Some table →
  NoDup regs.*1 →
  (∀ name, name ∈ regs.*1 → truthy (get table name) = false) →
  let r := registerMutators this regs st in
  result r = Normal () ∧
  calls r = [] ∧
  instances (final r) = instances st ∧
  objects (final r) !! mutators self = Some (list_to_map regs ∪ table).
Proof.
  intros Hi Ho Hnd Hfree. cbn zeta.
  revert st table Hi Ho Hfree.
  induction regs as [| [name mutator] rest IH]; intros st table Hi Ho Hfree.
  - cbn. by rewrite (left_id_L ∅ (∪)).
  - cbn [registerMutators]. apply NoDup_cons in Hnd as [Hnotin Hnd].
    assert (registerMutator this name mutator st =
            mkRun (Normal ())
              {| objects :=
                   <[mutators self := <[name := mutator]> table]> (objects st);
                 instances := instances st |} []) as E.
    { rewrite (registerMutator_run _ _ _ _ _ _ Hi Ho).
      rewrite Hfree; [done |]. cbn. apply list_elem_of_here. }
    rewrite (bind_silent _ _ _ _ _ E).
    set (st1 := {| objects := _; instances := instances st |}).
    destruct (IH Hnd st1 (<[name := mutator]> table)) as (R & C & I & O).
    + exact Hi.
    + cbn. apply lookup_insert_eq.
    + intros name' Hin. rewrite get_insert_ne.
      * apply Hfree. cbn. by apply list_elem_of_further.
      * intros <-. by apply Hnotin.
    + repeat split; [done | done | done |].
      rewrite O. f_equal. cbn [list_to_map foldr uncurry].
      rewrite <- insert_union_l. apply eq_sym, insert_union_r.
      by apply not_elem_of_list_to_map_1.
Qed.

(** A run of registrations under distinct names that all resolve to
    something falsy beforehand succeeds as a whole; afterwards the
    registry is the old one with every registered pair added, and the
    instances are as they were. *)
Theorem registerMutators_all st this self table regs :
  instances st !! this = Some self →
  objects st !! mutators self = Some table →
  NoDup regs.*1 →
  (∀ name, name ∈ regs.*1 → truthy (get table name) = false) →
  let r := registerMutators this regs st in
  result r = Normal () ∧
  calls r = [] ∧
  instances (final r) = instances st ∧
  objects (final r) !! mutators self = Some (list_to_map regs ∪ table).
Proof. apply registerMutators_run. Qed.

Lemma registerMutators_app this regs regs' st :
  registerMutators this (regs ++ regs') st =
  (registerMutators this regs;; registerMutators this regs') st.
Proof.
  revert st. induction regs as [| [name mutator] rest IH]; intros st.
  - cbn [app registerMutators]. unfold mbind, M_bind, mret, M_ret. cbn.
    by rewrite run_eta.
  - cbn [app registerMutators]. unfold mbind, M_bind in *. cbn.
    destruct (result (registerMutator this name mutator st)); [| done].
    rewrite IH. cbn.
    destruct (result (registerMutators this rest _)); cbn; [| done].
    by rewrite app_assoc.
Qed.

(** A run of registrations stops at the first name it meets a second
    time, if the first registration under that name stored a mutator: the
    run throws the assertion error for that name, and the registrations
    made before it stay in the registry. *)
Theorem registerMutators_duplicate
    st this self table regs name m mutator rest :
  instances st !! this = Some self →
  objects st !! mutators self = Some table →
  NoDup regs.*1 →
  (∀ name', name' ∈ regs.*1 → truthy (get table name') = false) →
  (list_to_map regs : gmap string value) !! name = Some (VMutator m) →
  let r := registerMutators this (regs ++ (name, mutator) :: rest) st in
  result r = Throw (already_exists name) ∧
  objects (final r) !! mutators self = Some (list_to_map regs ∪ table).
Proof.
  intros Hi Ho Hnd Hfree Hn. cbn zeta.
  destruct (registerMutators_run st this self table regs Hi Ho Hnd Hfree)
    as (R & C & I & O).
  destruct (registerMutators this regs st) as [res st1 cs] eqn:E0.
  cbn in R, C, I, O. subst res cs.
  rewrite registerMutators_app, (bind_silent _ _ _ _ _ E0).
  cbn [registerMutators].
  assert (instances st1 !! this = Some self) as Hi' by by rewrite I.
  assert (registerMutator this name mutator st1 =
          mkRun (Throw (already_exists name)) st1 []) as E.
  { rewrite (registerMutator_run _ _ _ _ _ _ Hi' O).
    rewrite (get_own _ _ (VMutator m)); [done |].
    by apply lookup_union_Some_l. }
  by rewrite (bind_Throw _ _ _ _ _ _ E).
Qed.

(** ** Construction *)

(** Constructing an instance of the base class disturbs nothing that is
    already there: every object, the default table among them, and every
    instance is afterwards what it was before. *)
Theorem Visualizer_constructor_frame st defaults pb :
  objects st !! MUTATORS_ = Some defaults →
  let r := Visualizer_constructor (H := Visualizer_prototype) pb st in
  (∀ l o, objects st !! l = Some o → objects (final r) !! l = Some o) ∧
  (∀ i v, instances st !! i = Some v → instances (final r) !! i = Some v).
Proof.
  intros Hd r. unfold r.
  rewrite (Visualizer_constructor_base _ _ pb Hd). cbn [final]. split.
  - intros l o Hl. cbn. rewrite lookup_insert_ne; [done |].
    by eapply fresh_object_ne.
  - intros i v Hv. cbn. rewrite lookup_insert_ne; [done |].
    intros E. rewrite <- E in Hv. by rewrite fresh_instance_None in Hv.
Qed.

Lemma registerMutators_frame st this self regs :
  instances st !! this = Some self →
  instances (final (registerMutators this regs st)) = instances st ∧
  ∀ l, l ≠ mutators self →
       objects (final (registerMutators this regs st)) !! l =
       objects st !! l.
Proof.
  revert st. induction regs as [| [name mutator] rest IH]; intros st Hi;
    [done |].
  cbn [registerMutators]. unfold mbind, M_bind.
  destruct (registerMutator_frame st this self name mutator Hi) as [Fi Fo].
  destruct (result (registerMutator this name mutator st));
    cbn [final]; [| done].
  destruct (IH (final (registerMutator this name mutator st))) as [Gi Go];
    [by rewrite Fi |].
  split; [by rewrite Gi |]. intros l Hl. by rewrite Go, Fo.
Qed.

(** Constructing an instance of a subclass whose [setupMutators] registers
    mutators under distinct names, none of which the default table already
    resolves to something truthy, succeeds: the new instance is inactive,
    its registry is the default table with the registered pairs added, and
    the default table itself is as it was. *)
Theorem subclass_construction st defaults pb regs :
  objects st !! MUTATORS_ = Some defaults →
  NoDup regs.*1 →
  (∀ name, name ∈ regs.*1 → truthy (get defaults name) = false) →
  let r := Visualizer_constructor (H := registering_subclass regs) pb st in
  ∃ this table,
    result r = Normal this ∧
    calls r = [CallSetupMutators this] ∧
    instances (final r) !! this =
      Some {| playback := pb; active := false; mutators := table |} ∧
    objects (final r) !! table = Some (list_to_map regs ∪ defaults) ∧
    objects (final r) !! MUTATORS_ = Some defaults.
Proof.
  intros Hd Hnd Hfree r. unfold r.
  rewrite (Visualizer_constructor_run (H := registering_subclass regs)
             st defaults pb Hd).
  set (table := fresh (dom (objects st))).
  set (this := fresh (dom (instances st))).
  set (self := {| playback := pb; active := false; mutators := table |}).
  set (seeded := {| objects := <[table := defaults]> (objects st);
                    instances := <[this := self]> (instances st) |}).
  assert (instances seeded !! this = Some self) as Hi
    by (cbn; apply lookup_insert_eq).
  assert (objects seeded !! mutators self = Some defaults) as Ho
    by (cbn; apply lookup_insert_eq).
  cbn [setupMutators registering_subclass].
  destruct (registerMutators_run seeded this self defaults regs
              Hi Ho Hnd Hfree) as (R & C & I & O).
  destruct (registerMutators_frame seeded this self regs Hi) as [_ Fo].
  exists this, table. cbn [result final calls]. rewrite R, C.
  split; [done |]. split; [done |]. split; [rewrite I; exact Hi |].
  split; [exact O |].
  rewrite Fo.
  - cbn. rewrite lookup_insert_ne; [done |]. by eapply fresh_object_ne.
  - cbn. intros E. by apply (fresh_object_ne st MUTATORS_ defaults Hd).
Qed.

(** ** Dispatch *)

Section MoreDispatch.

Variable invoke :
  MutatorHandler → loc → option WebGLRenderingContext → ArgumentData →
  store → completion unit * store.

(** On an active instance whose registry binds the event's name to a
    mutator with a [pre] handler, [handlePreEvent] calls that handler once,
    with the instance, the context and the event's arguments, and
    completes as the handler does: a handler's exception is not caught.
    The [post] handler, if there is one, is not called. *)
Theorem pre_handler_dispatch st this self table it gl m f :
  instances st !! this = Some self →
  active self = true →
  objects st !! mutators self = Some table →
  table !! getName it = Some (VMutator m) →
  pre m = Some f →
  handlePreEvent invoke this it gl st =
    mkRun (invoke f this gl (getArguments it) st).1
      (invoke f this gl (getArguments it) st).2
      [CallHandler f this gl (getArguments it)].
Proof.
  intros Hi Ha Ho Hn Hpre.
  rewrite (handlePreEvent_active _ _ _ _ _ _ _ Hi Ha Ho).
  rewrite (get_own _ _ _ Hn). cbn [get_pre]. rewrite Hpre.
  apply call_handler_run.
Qed.

(** The same for [handlePostEvent] and the [post] handler, whether or not
    the mutator has a [pre] handler as well. *)
Theorem post_handler_dispatch st this self table it gl m g :
  instances st !! this = Some self →
  active self = true →
  objects st !! mutators self = Some table →
  table !! getName it = Some (VMutator m) →
  post m = Some g →
  handlePostEvent invoke this it gl st =
    mkRun (invoke g this gl (getArguments it) st).1
      (invoke g this gl (getArguments it) st).2
      [CallHandler g this gl (getArguments it)].
Proof.
  intros Hi Ha Ho Hn Hpost.
  rewrite (handlePostEvent_active _ _ _ _ _ _ _ Hi Ha Ho).
  rewrite (get_own _ _ _ Hn). cbn [get_post]. rewrite Hpost.
  apply call_handler_run.
Qed.

(** An entry whose value is falsy is skipped by the guard
    [associatedFunction && ...] of lines 98 and 115: dispatching its name
    calls nothing and throws nothing. *)
Theorem falsy_entry_is_skipped st this self table it gl v :
  instances st !! this = Some self →
  active self = true →
  objects st !! mutators self = Some table →
  table !! getName it = Some v →
  truthy v = false →
  handlePreEvent invoke this it gl st = mkRun (Normal ()) st [] ∧
  handlePostEvent invoke this it gl st = mkRun (Normal ()) st [].
Proof.
  intros Hi Ha Ho Hn Hv.
  rewrite (handlePreEvent_active _ _ _ _ _ _ _ Hi Ha Ho).
  rewrite (handlePostEvent_active _ _ _ _ _ _ _ Hi Ha Ho).
  rewrite (get_own _ _ _ Hn). by destruct v.
Qed.

(** Whatever the store holds, one dispatch call either calls nothing and
    leaves the store as it was, or calls exactly one handler, with the
    instance, the context and the event's arguments, and ends as that
    handler ends. *)
Theorem dispatch_at_most_one_call st this it gl :
  let shape (r : run ()) :=
    (calls r = [] ∧ final r = st) ∨
    ∃ f, calls r = [CallHandler f this gl (getArguments it)] ∧
         (result r, final r) = invoke f this gl (getArguments it) st in
  shape (handlePreEvent invoke this it gl st) ∧
  shape (handlePostEvent invoke this it gl st).
Proof.
  cbn zeta.
  destruct (instances st !! this) as [self |] eqn:Hi; cycle 1.
  { unfold handlePreEvent, handlePostEvent.
    rewrite !(bind_Throw _ _ _ TypeError st []);
      [by split; left | unfold read_instance; by rewrite Hi ..]. }
  destruct (active self) eqn:Ha; cycle 1.
  { rewrite (handlePreEvent_inactive _ _ _ _ _ _ Hi Ha).
    rewrite (handlePostEvent_inactive _ _ _ _ _ _ Hi Ha).
    by split; left. }
  destruct (objects st !! mutators self) as [table |] eqn:Ho; cycle 1.
  { unfold handlePreEvent, handlePostEvent.
    rewrite !(bind_silent _ _ _ _ _ (read_instance_Some _ _ _ Hi)).
    rewrite Ha. cbn [negb].
    rewrite !(bind_Throw _ _ _ TypeError st []);
      [by split; left | ..];
      unfold get_elem; rewrite (bind_Throw _ _ _ TypeError st []);
      try done; unfold read_object; by rewrite Ho. }
  rewrite (handlePreEvent_active _ _ _ _ _ _ _ Hi Ha Ho).
  rewrite (handlePostEvent_active _ _ _ _ _ _ _ Hi Ha Ho).
  split.
  - destruct (get_pre _) as [f |]; [right | by left].
    rewrite call_handler_run. exists f. cbn. split; [done |].
    by destruct (invoke f this gl (getArguments it) st).
  - destruct (get_post _) as [f |]; [right | by left].
    rewrite call_handler_run. exists f. cbn. split; [done |].
    by destruct (invoke f this gl (getArguments it) st).
Qed.

(** Registration and dispatch compose: once [registerMutator] has stored
    a mutator under a name that resolved to something falsy, dispatching
    an event of that name on the active instance calls the mutator's
    [pre] handler before and its [post] handler after. *)
Theorem register_then_dispatch st this self table it gl m f g :
  instances st !! this = Some self →
  active self = true →
  objects st !! mutators self = Some table →
  truthy (get table (getName it)) = false →
  pre m = Some f →
  post m = Some g →
  let r := registerMutator this (getName it) (VMutator m) st in
  result r = Normal () ∧
  calls (handlePreEvent invoke this it gl (final r)) =
    [CallHandler f this gl (getArguments it)] ∧
  calls (handlePostEvent invoke this it gl (final r)) =
    [CallHandler g this gl (getArguments it)].
Proof.
  intros Hi Ha Ho Hfree Hpre Hpost r. unfold r.
  rewrite (registerMutator_run _ _ _ _ _ _ Hi Ho), Hfree.
  cbn [result final]. split; [done |].
  erewrite handlePreEvent_active;
    [| exact Hi | exact Ha | cbn; apply lookup_insert_eq].
  erewrite handlePostEvent_active;
    [| exact Hi | exact Ha | cbn; apply lookup_insert_eq].
  rewrite get_insert. cbn [get_pre get_post]. rewrite Hpre, Hpost.
  by rewrite !call_handler_run.
Qed.

End MoreDispatch.

(** ** Isolation *)

Lemma registerMutator_effect st this name mutator :
  final (registerMutator this name mutator st) = st ∨
  ∃ self table,
    instances st !! this = Some self ∧
    objects st !! mutators self = Some table ∧
    final (registerMutator this name mutator st) =
      {| objects :=
           <[mutators self := <[name := mutator]> table]> (objects st);
         instances := instances st |}.
Proof.
  destruct (instances st !! this) as [self |] eqn:Hi;
    [| left; by rewrite (registerMutator_no_instance _ _ _ _ Hi)].
  destruct (objects st !! mutators self) as [table |] eqn:Ho;
    [| left; by rewrite (registerMutator_no_table _ _ _ _ _ Hi Ho)].
  rewrite (registerMutator_run _ _ _ _ _ _ Hi Ho).
  destruct (truthy (get table name)); [by left |].
  right. by exists self, table.
Qed.

Lemma separated_start defaults st :
  objects st !! MUTATORS_ = Some defaults →
  instances st = ∅ →
  separated defaults st.
Proof.
  intros Hd He. split; [done |]. rewrite He.
  split; [intros a va Ha | intros a b va vb Ha]; by rewrite lookup_empty in Ha.
Qed.

Lemma separated_write defaults st this self table' :
  separated defaults st →
  instances st !! this = Some self →
  separated defaults
    {| objects := <[mutators self := table']> (objects st);
       instances := instances st |}.
Proof.
  intros (Hd & Hown & Hne) Hi. split; [| split]; cbn.
  - rewrite lookup_insert_ne; [done |]. by apply (Hown this).
  - intros a va Ha. destruct (Hown a va Ha) as [Hm Hs]. split; [done |].
    destruct (decide (mutators self = mutators va)) as [-> | Hd'].
    + rewrite lookup_insert_eq. by eexists.
    + by rewrite lookup_insert_ne.
  - exact Hne.
Qed.

Lemma separated_register defaults st this name mutator :
  separated defaults st →
  separated defaults (final (registerMutator this name mutator st)).
Proof.
  intros Hs.
  destruct (registerMutator_effect st this name mutator)
    as [-> | (self & table & Hi & _ & ->)]; [done |].
  by apply (separated_write defaults st this).
Qed.

Lemma separated_registers defaults st this regs :
  separated defaults st →
  separated defaults (final (registerMutators this regs st)).
Proof.
  revert st. induction regs as [| [name mutator] rest IH]; intros st Hs;
    [done |].
  cbn [registerMutators]. unfold mbind, M_bind.
  pose proof (separated_register defaults st this name mutator Hs) as H1.
  destruct (result (registerMutator this name mutator st)); cbn [final];
    [by apply IH | done].
Qed.

Lemma separated_seeded defaults st pb :
  separated defaults st →
  separated defaults
    {| objects := <[fresh (dom (objects st)) := defaults]> (objects st);
       instances :=
         <[fresh (dom (instances st)) :=
             {| playback := pb; active := false;
                mutators := fresh (dom (objects st)) |}]> (instances st) |}.
Proof.
  intros (Hd & Hown & Hne).
  set (table := fresh (dom (objects st))).
  set (this := fresh (dom (instances st))).
  assert (∀ a va, instances st !! a = Some va → table ≠ mutators va) as Hfr.
  { intros a va Ha. destruct (Hown a va Ha) as [_ [o Ho]].
    by apply (fresh_object_ne st _ o). }
  split; [| split]; cbn.
  - rewrite lookup_insert_ne; [done |]. by apply (fresh_object_ne st _ defaults).
  - intros a va. destruct (decide (this = a)) as [<- | Hna].
    + rewrite lookup_insert_eq. intros [= <-]. cbn. split.
      * by apply (fresh_object_ne st _ defaults).
      * rewrite lookup_insert_eq. by eexists.
    + rewrite lookup_insert_ne; [| done]. intros Ha.
      destruct (Hown a va Ha) as [Hm Hs]. split; [done |].
      rewrite lookup_insert_ne; [done |]. by apply (Hfr a).
  - intros a b va vb.
    destruct (decide (this = a)) as [<- | Hna];
      destruct (decide (this = b)) as [<- | Hnb].
    + done.
    + rewrite lookup_insert_eq, lookup_insert_ne; [| done].
      intros [= <-] Hb _. cbn. by apply (Hfr b).
    + rewrite lookup_insert_eq, lookup_insert_ne; [| done].
      intros Ha [= <-] _. cbn. apply not_eq_sym. by apply (Hfr a).
    + rewrite !lookup_insert_ne; [| done ..]. apply Hne.
Qed.

Lemma separated_active defaults st this self b :
  separated defaults st →
  instances st !! this = Some self →
  separated defaults
    {| objects := objects st;
       instances :=
         <[this := {| playback := playback self; active := b;
                      mutators := mutators self |}]> (instances st) |}.
Proof.
  intros (Hd & Hown & Hne) Hi.
  assert (∀ a va,
            <[this := {| playback := playback self; active := b;
                         mutators := mutators self |}]> (instances st) !! a =
              Some va →
            ∃ va', instances st !! a = Some va' ∧ mutators va = mutators va')
    as Hold.
  { intros a va. destruct (decide (this = a)) as [<- | Hna].
    - rewrite lookup_insert_eq. intros [= <-]. by exists self.
    - rewrite lookup_insert_ne; [| done]. intros Ha. by exists va. }
  split; [done |]. split; cbn.
  - intros a va Ha. destruct (Hold a va Ha) as (va' & Ha' & ->).
    by apply (Hown a).
  - intros a c va vc Ha Hc Hac.
    destruct (Hold a va Ha) as (va' & Ha' & ->).
    destruct (Hold c vc Hc) as (vc' & Hc' & ->).
    by apply (Hne a c).
Qed.

Lemma reachable_separated defaults st :
  reachable defaults st → separated defaults st.
Proof.
  induction 1 as [st Hd He | st pb _ IH | st regs pb _ IH
                 | st this name mutator _ IH | st this self b _ IH Hi].
  - by apply separated_start.
  - destruct IH as (Hd & Hrest).
    rewrite (Visualizer_constructor_base _ _ pb Hd). cbn [final].
    by apply separated_seeded.
  - destruct IH as (Hd & Hrest).
    rewrite (Visualizer_constructor_run (H := registering_subclass regs)
               st defaults pb Hd).
    cbn [final setupMutators registering_subclass].
    by apply separated_registers, separated_seeded.
  - by apply separated_register.
  - by apply separated_active.
Qed.

(** C6: in every store the class can bring about from one default table,
    whatever the order of constructions and registrations and whatever
    the classes of the instances, a registration on one instance, whether
    it succeeds or not, leaves every other instance as it was: its fields
    and its registry are unchanged, so it resolves every name as it did
    before, the registered name included. The default table is unchanged
    as well. *)
Theorem registry_isolation defaults st a b va vb name mutator :
  reachable defaults st →
  instances st !! a = Some va →
  instances st !! b = Some vb →
  a ≠ b →
  let r := registerMutator a name mutator st in
  visualizer_state b (final r) = visualizer_state b st ∧
  (∀ name', result (lookup b name' (final r)) = result (lookup b name' st)) ∧
  objects (final r) !! MUTATORS_ = Some defaults.
Proof.
  intros Hr Ha Hb Hab r. unfold r.
  destruct (reachable_separated _ _ Hr) as (Hd & Hown & Hne).
  destruct (registerMutator_effect st a name mutator)
    as [-> | (self & table & Hi & Ho & ->)]; [done |].
  assert (self = va) as -> by congruence.
  assert (mutators va ≠ mutators vb) as Hvv by by apply (Hne a b).
  destruct (Hown b vb Hb) as [_ [tb Htb]].
  destruct (Hown a va Ha) as [HaM _].
  split; [| split].
  - unfold visualizer_state. cbn. rewrite Hb. cbn.
    by rewrite lookup_insert_ne.
  - intros name'.
    erewrite (lookup_Some _ b vb tb); [| exact Hb | cbn].
    + by erewrite (lookup_Some st b vb tb).
    + by rewrite lookup_insert_ne.
  - cbn. by rewrite lookup_insert_ne.
Qed.

(** ** The further properties at concrete inputs *)

Lemma example_regs_NoDup : NoDup example_regs.*1.
Proof. apply (bool_decide_unpack _). exact I. Defined.

Lemma example_regs_free name :
  name ∈ example_regs.*1 → truthy (get ∅ name) = false.
Proof.
  cbn. rewrite !elem_of_cons, elem_of_nil.
  intros [-> | [-> | []]]; reflexivity.
Defined.

Lemma registerMutator_failure_atomic_witness :
  let st := example_store false {[ "draw" := VMutator example_mutator ]} in
  calls (registerMutator 1%positive "draw" VNull st) = [] ∧
  final (registerMutator 1%positive "draw" VNull st) = st.
Proof.
  intros st.
  destruct (registerMutator_failure_atomic st 1%positive "draw" VNull)
    as [C F].
  split; [exact C |]. apply F. discriminate.
Defined.

Lemma registerMutator_preserves_others_witness :
  let st := example_store false {[ "draw" := VMutator example_mutator ]} in
  let r := registerMutator 1%positive "clear" (VMutator example_mutator) st in
  instances (final r) = instances st ∧
  ∀ name', name' ≠ "clear" →
    lookup 1%positive name' (final r) =
      mkRun (Normal (get {[ "draw" := VMutator example_mutator ]} name'))
        (final r) [].
Proof.
  apply (registerMutator_preserves_others
           (example_store false {[ "draw" := VMutator example_mutator ]})
           1%positive (example_instance false)
           {[ "draw" := VMutator example_mutator ]} "clear"
           (VMutator example_mutator)); reflexivity.
Defined.

Lemma default_entry_blocks_registration_witness :
  let st := store_with_defaults {[ "draw" := VMutator example_mutator ]} in
  let r0 := Visualizer_constructor (H := Visualizer_prototype)
              "playback" st in
  ∃ this,
    result r0 = Normal this ∧
    lookup this "draw" (final r0) =
      mkRun (Normal (VMutator example_mutator)) (final r0) [] ∧
    registerMutator this "draw" (VMutator (mkMutator None None))
      (final r0) =
      mkRun (Throw (already_exists "draw")) (final r0) [].
Proof.
  apply (default_entry_blocks_registration
           (store_with_defaults {[ "draw" := VMutator example_mutator ]})
           {[ "draw" := VMutator example_mutator ]} "playback" "draw"
           example_mutator (VMutator (mkMutator None None))); reflexivity.
Defined.

Lemma registerMutators_all_witness :
  let r := registerMutators 1%positive example_regs
             (example_store false ∅) in
  result r = Normal () ∧
  calls r = [] ∧
  instances (final r) = instances (example_store false ∅) ∧
  objects (final r) !! 2%positive = Some (list_to_map example_regs ∪ ∅).
Proof.
  apply (registerMutators_all (example_store false ∅) 1%positive
           (example_instance false) ∅ example_regs).
  - reflexivity.
  - reflexivity.
  - exact example_regs_NoDup.
  - exact example_regs_free.
Defined.

Lemma registerMutators_duplicate_witness :
  let r := registerMutators 1%positive
             (example_regs ++ [("draw", VNull); ("blit", VNull)])
             (example_store false ∅) in
  result r = Throw (already_exists "draw") ∧
  objects (final r) !! 2%positive = Some (list_to_map example_regs ∪ ∅).
Proof.
  apply (registerMutators_duplicate (example_store false ∅) 1%positive
           (example_instance false) ∅ example_regs "draw" example_mutator
           VNull [("blit", VNull)]).
  - reflexivity.
  - reflexivity.
  - exact example_regs_NoDup.
  - exact example_regs_free.
  - reflexivity.
Defined.

Lemma Visualizer_constructor_frame_witness :
  let st := example_store true {[ "draw" := VMutator example_mutator ]} in
  let r := Visualizer_constructor (H := Visualizer_prototype)
             "another playback" st in
  (∀ l o, objects st !! l = Some o → objects (final r) !! l = Some o) ∧
  (∀ i v, instances st !! i = Some v → instances (final r) !! i = Some v).
Proof.
  apply (Visualizer_constructor_frame
           (example_store true {[ "draw" := VMutator example_mutator ]})
           ∅ "another playback").
  reflexivity.
Defined.

Lemma subclass_construction_witness :
  let r := Visualizer_constructor (H := registering_subclass example_regs)
             "playback" loaded in
  ∃ this table,
    result r = Normal this ∧
    calls r = [CallSetupMutators this] ∧
    instances (final r) !! this =
      Some {| playback := "playback"; active := false;
              mutators := table |} ∧
    objects (final r) !! table = Some (list_to_map example_regs ∪ ∅) ∧
    objects (final r) !! MUTATORS_ = Some ∅.
Proof.
  apply (subclass_construction loaded ∅ "playback" example_regs).
  - reflexivity.
  - exact example_regs_NoDup.
  - exact example_regs_free.
Defined.

Lemma pre_handler_dispatch_witness :
  let st := example_store true {[ "draw" := VMutator example_mutator ]} in
  handlePreEvent example_invoke 1%positive draw (Some "ctx") st =
    mkRun (Throw (Exception "lost context")) st
      [CallHandler "f" 1%positive (Some "ctx") "argsX"].
Proof.
  apply (pre_handler_dispatch example_invoke
           (example_store true {[ "draw" := VMutator example_mutator ]})
           1%positive (example_instance true)
           {[ "draw" := VMutator example_mutator ]} draw (Some "ctx")
           example_mutator "f"); reflexivity.
Defined.

Lemma post_handler_dispatch_witness :
  let st := example_store true {[ "draw" := VMutator example_mutator ]} in
  handlePostEvent example_invoke 1%positive draw None st =
    mkRun (Normal ()) st [CallHandler "g" 1%positive None "argsX"].
Proof.
  apply (post_handler_dispatch example_invoke
           (example_store true {[ "draw" := VMutator example_mutator ]})
           1%positive (example_instance true)
           {[ "draw" := VMutator example_mutator ]} draw None
           example_mutator "g"); reflexivity.
Defined.

Lemma falsy_entry_is_skipped_witness :
  let st := example_store true {[ "draw" := VNull ]} in
  handlePreEvent example_invoke 1%positive draw (Some "ctx") st =
    mkRun (Normal ()) st [] ∧
  handlePostEvent example_invoke 1%positive draw (Some "ctx") st =
    mkRun (Normal ()) st [].
Proof.
  apply (falsy_entry_is_skipped example_invoke
           (example_store true {[ "draw" := VNull ]}) 1%positive
           (example_instance true) {[ "draw" := VNull ]} draw (Some "ctx")
           VNull); reflexivity.
Defined.

Lemma register_then_dispatch_witness :
  let r := registerMutator 1%positive "draw" (VMutator example_mutator)
             (example_store true ∅) in
  result r = Normal () ∧
  calls (handlePreEvent example_invoke 1%positive draw (Some "ctx")
           (final r)) =
    [CallHandler "f" 1%positive (Some "ctx") "argsX"] ∧
  calls (handlePostEvent example_invoke 1%positive draw (Some "ctx")
           (final r)) =
    [CallHandler "g" 1%positive (Some "ctx") "argsX"].
Proof.
  apply (register_then_dispatch example_invoke (example_store true ∅)
           1%positive (example_instance true) ∅ draw (Some "ctx")
           example_mutator "f" "g"); reflexivity.
Defined.

Lemma registry_isolation_witness :
  let s1 := final (Visualizer_constructor (H := Visualizer_prototype)
                     "playbackA" loaded) in
  let s2 := final (registerMutator 1%positive "clear"
                     (VMutator example_mutator) s1) in
  let s3 := final (Visualizer_constructor
                     (H := registering_subclass example_regs)
                     "playbackB" s2) in
  let st := final (Visualizer_constructor (H := Visualizer_prototype)
                     "playbackC" s3) in
  let r := registerMutator 3%positive "blit" (VMutator example_mutator) st in
  visualizer_state 1%positive (final r) = visualizer_state 1%positive st ∧
  (∀ name', result (lookup 1%positive name' (final r)) =
            result (lookup 1%positive name' st)) ∧
  objects (final r) !! MUTATORS_ = Some ∅.
Proof.
  apply (registry_isolation ∅ _ 3%positive 1%positive
           (mkVisualizer "playbackC" false 4%positive)
           (mkVisualizer "playbackA" false 2%positive)
           "blit" (VMutator example_mutator)).
  - apply reachable_new, reachable_new_subclass, reachable_register,
      reachable_new, reachable_start; reflexivity.
  - reflexivity.
  - reflexivity.
  - discriminate.
Defined.
